(** * backend/config.py: configuration of the LLM Council

    A shallow embedding of [src/backend/config.py] and the properties of
    its configuration resolution.

    Modelling choices.
    - A Python [str] is a [string]; a character is an [ascii], read as the
      code point of the same number (0..255).  On these code points
      [str.isspace] and [str.lower] are the tables written out below.
    - [str | None] is [option string].
    - [os.environ], after [load_dotenv()] has run, is a finite map from
      names to values; [os.getenv] is its lookup.
    - A Python expression that can raise is a value of [result]: [Ok v] or
      [Raise e].  Attribute access on [None] and list indexing out of range
      are the two operations of this module that can raise.
    - The module body runs once, top to bottom; [config_module] is that
      run, from the environment to the module's global names. *)

From Stdlib Require Import String Ascii NArith List Bool Lia.
From stdpp Require Import base option list strings gmap.
Import ListNotations.
Local Open Scope string_scope.
Local Open Scope list_scope.

(** ** Python values and builtins *)

Module Py.

Inductive exn : Type :=
| AttributeError
| IndexError.

Inductive result (A : Type) : Type :=
| Ok (a : A)
| Raise (e : exn).
Arguments Ok {A} a.
Arguments Raise {A} e.

Definition bind {A B : Type} (m : result A) (k : A -> result B) : result B :=
  match m with
  | Ok a => k a
  | Raise e => Raise e
  end.

(** Truth value testing: [bool(x)]. *)
Class Truthy (A : Type) := truthy : A -> bool.

#[export] Instance truthy_str : Truthy string :=
  fun s => match s with "" => false | String _ _ => true end.

#[export] Instance truthy_list {A : Type} : Truthy (list A) :=
  fun l => match l with [] => false | _ :: _ => true end.

(** [None] is false; a [str] is tested as a [str]. *)
#[export] Instance truthy_optional {A : Type} `{Truthy A} : Truthy (option A) :=
  fun o => match o with None => false | Some a => truthy a end.

(** [str.isspace] on one character: code points 0x09..0x0D, 0x1C..0x20,
    0x85 and 0xA0. *)
Definition isspace (c : ascii) : bool :=
  let n := N_of_ascii c in
  ((9 <=? n) && (n <=? 13) || (28 <=? n) && (n <=? 32)
   || (n =? 133) || (n =? 160))%N.

Fixpoint lstrip (s : string) : string :=
  match s with
  | "" => ""
  | String c r => if isspace c then lstrip r else s
  end.

Fixpoint rstrip (s : string) : string :=
  match s with
  | "" => ""
  | String c r =>
      match rstrip r with
      | "" => if isspace c then "" else String c ""
      | r' => String c r'
      end
  end.

(** [s.strip()] *)
Definition strip (s : string) : string := rstrip (lstrip s).

(** Lower-case mapping of one code point below 256: A..Z and the
    Latin-1 capitals 0xC0..0xDE except the multiplication sign 0xD7. *)
Definition lower_char (c : ascii) : ascii :=
  let n := N_of_ascii c in
  if ((65 <=? n) && (n <=? 90)
      || (192 <=? n) && (n <=? 222) && negb (n =? 215))%N
  then ascii_of_N (n + 32)
  else c.

(** [s.lower()] *)
Fixpoint lower (s : string) : string :=
  match s with
  | "" => ""
  | String c r => String (lower_char c) (lower r)
  end.

(** [s.split(sep)] for a separator of one character: every occurrence
    of [sep] ends a segment, so the result has one more element than
    [s] has separators and is never empty. *)
Fixpoint split (sep : ascii) (s : string) : list string :=
  match s with
  | "" => [""]
  | String c r =>
      if Ascii.eqb c sep then "" :: split sep r
      else match split sep r with
           | seg :: segs => String c seg :: segs
           | [] => [String c ""]
           end
  end.

(** [sep.join(l)] *)
Fixpoint join (sep : string) (l : list string) : string :=
  match l with
  | [] => ""
  | [x] => x
  | x :: xs => x +:+ sep +:+ join sep xs
  end.

(** [value.split(sep)] where [value] may be [None]: attribute access on
    [None] raises. *)
Definition split_method (value : option string) (sep : ascii)
  : result (list string) :=
  match value with
  | None => Raise AttributeError
  | Some s => Ok (split sep s)
  end.

(** [l[i]] for [i >= 0] *)
Definition getitem {A : Type} (l : list A) (i : nat) : result A :=
  match l !! i with
  | Some x => Ok x
  | None => Raise IndexError
  end.

(** [os.getenv(name)] *)
Definition getenv (environ : gmap string string) (name : string)
  : option string :=
  environ !! name.

End Py.

Export Py.

Notation "x <- m ;; k" := (bind m (fun x => k))
  (at level 100, m at next level, right associativity).

(** ** The module *)

Abbreviation environment := (gmap string string).

(** [def _parse_model_list(value)] *)
Definition _parse_model_list (value : option string) : result (list string) :=
  if negb (truthy value) then Ok []
  else
    segments <- split_method value "," ;;
    Ok (flat_map
          (fun model => if truthy (strip model) then [strip model] else [])
          segments).

Definition OPENROUTER_API_KEY (env : environment) : option string :=
  getenv env "OPENROUTER_API_KEY".

(** The list literal on the right of [or] in [COUNCIL_MODELS]. *)
Definition default_council_models : list string :=
  [ "anthropic/claude-haiku-4.5";
    "google/gemini-3-flash-preview";
    "openai/gpt-5-mini";
    "x-ai/grok-4.1-fast" ].

Definition COUNCIL_MODELS (env : environment) : result (list string) :=
  parsed <- _parse_model_list (getenv env "COUNCIL_MODELS") ;;
  Ok (if truthy parsed then parsed else default_council_models).

(** [os.getenv("CHAIRMAN_MODEL") or COUNCIL_MODELS[0]]: the subscript is
    evaluated only when the left operand is false. *)
Definition CHAIRMAN_MODEL (env : environment) (council_models : list string)
  : result string :=
  match getenv env "CHAIRMAN_MODEL" with
  | Some s => if truthy s then Ok s else getitem council_models 0
  | None => getitem council_models 0
  end.

(** [(os.getenv("REASONING_EFFORT") or "medium").strip().lower() or None] *)
Definition REASONING_EFFORT (env : environment) : option string :=
  let raw :=
    match getenv env "REASONING_EFFORT" with
    | Some s => if truthy s then s else "medium"
    | None => "medium"
    end in
  let effort := lower (strip raw) in
  if truthy effort then Some effort else None.

Definition OPENROUTER_API_URL : string :=
  "https://openrouter.ai/api/v1/chat/completions".

Definition DATA_DIR : string := "data/conversations".

(** The names the module defines once its body has run. *)
Record config : Type := Config {
  api_key : option string;
  council_models : list string;
  chairman_model : string;
  reasoning_effort : option string;
  api_url : string;
  data_dir : string
}.

(** Running the module body against an environment. *)
Definition config_module (env : environment) : result config :=
  let key := OPENROUTER_API_KEY env in
  council <- COUNCIL_MODELS env ;;
  chairman <- CHAIRMAN_MODEL env council ;;
  let effort := REASONING_EFFORT env in
  Ok (Config key council chairman effort OPENROUTER_API_URL DATA_DIR).

(** An environment given by its entries. *)
Definition environ_of (entries : list (string * string)) : environment :=
  list_to_map entries.


(** ** Vocabulary of the properties *)

(** [c in s] *)
Fixpoint contains (c : ascii) (s : string) : bool :=
  match s with
  | "" => false
  | String d r => Ascii.eqb d c || contains c r
  end.

(** [s.count(c)] *)
Fixpoint count_char (c : ascii) (s : string) : nat :=
  match s with
  | "" => 0
  | String d r => (if Ascii.eqb d c then 1 else 0) + count_char c r
  end.

(** Every character of [s] is whitespace. *)
Fixpoint all_space (s : string) : bool :=
  match s with
  | "" => true
  | String c r => isspace c && all_space r
  end.

(** Every character of [s] is a comma or whitespace. *)
Fixpoint only_commas_and_space (s : string) : bool :=
  match s with
  | "" => true
  | String c r => (Ascii.eqb c "," || isspace c) && only_commas_and_space r
  end.

Definition starts_with_space (s : string) : bool :=
  match s with
  | "" => false
  | String c _ => isspace c
  end.

Fixpoint ends_with_space (s : string) : bool :=
  match s with
  | "" => false
  | String c "" => isspace c
  | String _ r => ends_with_space r
  end.

(** [t] is [s] trimmed of its surrounding whitespace: [s] is [t] between
    two runs of whitespace, and [t] neither starts nor ends with one. *)
Definition trimmed_of (s t : string) : Prop :=
  exists l r : string,
    s = l +:+ t +:+ r /\ all_space l = true /\ all_space r = true /\
    starts_with_space t = false /\ ends_with_space t = false.

(** The comma-delimited segments of [s]: the strings without a comma
    that give [s] back when joined by commas. *)
Definition comma_segments (s : string) (segments : list string) : Prop :=
  segments <> [] /\
  Forall (fun seg => contains "," seg = false) segments /\
  join "," segments = s.

(** An entry the parser may return: not empty, trimmed, without comma. *)
Definition model_id (m : string) : Prop :=
  m <> "" /\ strip m = m /\ contains "," m = false.

(** ** The builtins and the module on concrete inputs *)

Example split_keeps_empty_segments :
  split "," "a,,b," = ["a"; ""; "b"; ""] /\ split "," "" = [""].
Proof. split; reflexivity. Qed.

Example join_examples :
  join "," [] = "" /\ join "," ["a"] = "a" /\ join "," ["a"; ""; "b"] = "a,,b".
Proof. repeat split; reflexivity. Qed.

Example strip_examples :
  strip "  a b  " = "a b" /\ strip "   " = "" /\ strip "" = "" /\
  strip (String "009" (String "010" "x y")) = "x y".
Proof. repeat split; reflexivity. Qed.

Example lower_examples :
  lower "HIGH" = "high" /\ lower "x-AI/Grok-4.1" = "x-ai/grok-4.1".
Proof. split; reflexivity. Qed.

Example getitem_examples :
  getitem ["a"; "b"] 0 = Ok "a" /\ getitem ([] : list string) 0 = Raise IndexError.
Proof. split; reflexivity. Qed.

(** A council list from the environment, nothing else set. *)
Example config_module_custom_council :
  config_module (environ_of [("COUNCIL_MODELS", "modelA, modelB ,,modelC")]) =
  Ok (Config None ["modelA"; "modelB"; "modelC"] "modelA" (Some "medium")
        "https://openrouter.ai/api/v1/chat/completions" "data/conversations").
Proof. reflexivity. Qed.

(** Nothing set. *)
Example config_module_empty_environment :
  config_module (environ_of []) =
  Ok (Config None default_council_models "anthropic/claude-haiku-4.5"
        (Some "medium")
        "https://openrouter.ai/api/v1/chat/completions" "data/conversations").
Proof. reflexivity. Qed.

(** ** Strings *)

Section Strings.

Local Arguments String.append !s1 s2 : simpl nomatch.

Lemma append_nil_r (s : string) : s +:+ "" = s.
Proof. induction s as [|c r IH]; simpl; [reflexivity | now rewrite IH]. Qed.

Lemma append_assoc (a b c : string) : (a +:+ b) +:+ c = a +:+ (b +:+ c).
Proof. induction a as [|x a IH]; simpl; [reflexivity | now rewrite IH]. Qed.

Lemma contains_append (c : ascii) (a b : string) :
  contains c (a +:+ b) = contains c a || contains c b.
Proof.
  induction a as [|x a IH]; simpl; [reflexivity |].
  rewrite IH. now rewrite orb_assoc.
Qed.

(** *** [split] and [join] *)

Lemma split_not_nil (sep : ascii) (s : string) : split sep s <> [].
Proof.
  destruct s as [|c r]; simpl; [discriminate |].
  destruct (Ascii.eqb c sep); [discriminate |].
  destruct (split sep r); discriminate.
Qed.

Lemma split_other (sep c : ascii) (r : string) :
  Ascii.eqb c sep = false ->
  exists seg segs,
    split sep r = seg :: segs /\ split sep (String c r) = String c seg :: segs.
Proof.
  intros Hc. simpl. rewrite Hc.
  destruct (split sep r) as [|seg segs] eqn:E.
  - now apply split_not_nil in E.
  - now exists seg, segs.
Qed.

Lemma join_cons2 (sep x y : string) (l : list string) :
  join sep (x :: y :: l) = x +:+ sep +:+ join sep (y :: l).
Proof. reflexivity. Qed.

Lemma join_split (sep : ascii) (s : string) :
  join (String sep "") (split sep s) = s.
Proof.
  induction s as [|c r IH]; [reflexivity |].
  destruct (Ascii.eqb c sep) eqn:Hc.
  - simpl split. rewrite Hc. apply Ascii.eqb_eq in Hc. subst c.
    destruct (split sep r) as [|seg segs] eqn:E.
    + now apply split_not_nil in E.
    + rewrite join_cons2, IH. reflexivity.
  - destruct (split_other sep c r Hc) as (seg & segs & E & ->).
    rewrite E in IH. destruct segs as [|seg' segs].
    + simpl in *. now subst.
    + rewrite join_cons2 in *. rewrite <- IH. reflexivity.
Qed.

Lemma split_sep_free (sep : ascii) (s : string) :
  Forall (fun seg => contains sep seg = false) (split sep s).
Proof.
  induction s as [|c r IH]; [now repeat constructor |].
  destruct (Ascii.eqb c sep) eqn:Hc.
  - simpl. rewrite Hc. now constructor.
  - destruct (split_other sep c r Hc) as (seg & segs & E & ->).
    rewrite E in IH. inversion IH as [|? ? Hseg Hsegs]; subst.
    constructor; [| assumption]. simpl. now rewrite Hc, Hseg.
Qed.

Lemma length_split (sep : ascii) (s : string) :
  length (split sep s) = S (count_char sep s).
Proof.
  induction s as [|c r IH]; [reflexivity |].
  destruct (Ascii.eqb c sep) eqn:Hc.
  - simpl. rewrite Hc. simpl. now rewrite IH.
  - destruct (split_other sep c r Hc) as (seg & segs & E & ->).
    rewrite E in IH. simpl. now rewrite Hc.
Qed.

Lemma split_sep_free_one (sep : ascii) (x : string) :
  contains sep x = false -> split sep x = [x].
Proof.
  induction x as [|c r IH]; [reflexivity |].
  simpl. intros H. apply orb_false_iff in H as [Hc Hr].
  rewrite Hc, (IH Hr). reflexivity.
Qed.

Lemma split_append_sep (sep : ascii) (x rest : string) :
  contains sep x = false ->
  split sep (x +:+ String sep rest) = x :: split sep rest.
Proof.
  induction x as [|c r IH]; intros H.
  - simpl. now rewrite Ascii.eqb_refl.
  - simpl in H. apply orb_false_iff in H as [Hc Hr].
    simpl. rewrite Hc, (IH Hr). reflexivity.
Qed.

Lemma split_join (sep : ascii) (l : list string) :
  l <> [] ->
  Forall (fun seg => contains sep seg = false) l ->
  split sep (join (String sep "") l) = l.
Proof.
  induction l as [|x l IH]; [congruence |].
  intros _ Hl. inversion Hl as [|? ? Hx Hl']; subst.
  destruct l as [|y l].
  - now apply split_sep_free_one.
  - rewrite join_cons2.
    change (split sep (x +:+ String sep (join (String sep "") (y :: l)))
            = x :: y :: l).
    rewrite (split_append_sep _ _ _ Hx), IH;
      [reflexivity | discriminate | assumption].
Qed.

(** [comma_segments] has one solution, the result of [split]. *)
Lemma comma_segments_split (s : string) (segments : list string) :
  comma_segments s segments <-> segments = split "," s.
Proof.
  split.
  - intros (Hne & Hfree & <-). symmetry. now apply (split_join ",").
  - intros ->. split; [apply split_not_nil |].
    split; [apply split_sep_free | apply (join_split ",")].
Qed.

End Strings.

(** *** [strip] and [lower] *)

Section Strip.

Local Arguments String.append !s1 s2 : simpl nomatch.

Lemma rstrip_cons_empty (c : ascii) (r : string) :
  rstrip r = "" ->
  rstrip (String c r) = if isspace c then "" else String c "".
Proof. intros E. simpl. now rewrite E. Qed.

Lemma rstrip_cons_more (c : ascii) (r : string) :
  rstrip r <> "" -> rstrip (String c r) = String c (rstrip r).
Proof. intros E. simpl. destruct (rstrip r); [congruence | reflexivity]. Qed.

Lemma lstrip_decomp (s : string) :
  exists l, s = l +:+ lstrip s /\ all_space l = true.
Proof.
  induction s as [|c r (l & E & Hl)]; [now exists "" |].
  simpl. destruct (isspace c) eqn:Hc.
  - exists (String c l). simpl. rewrite Hc, Hl. now rewrite <- E.
  - now exists "".
Qed.

Lemma lstrip_start (s : string) : starts_with_space (lstrip s) = false.
Proof.
  induction s as [|c r IH]; [reflexivity |].
  simpl. destruct (isspace c) eqn:Hc; [assumption | simpl; assumption].
Qed.

Lemma lstrip_id (t : string) : starts_with_space t = false -> lstrip t = t.
Proof. destruct t as [|c r]; simpl; [reflexivity | now intros ->]. Qed.

Lemma rstrip_decomp (t : string) :
  exists r, t = rstrip t +:+ r /\ all_space r = true.
Proof.
  induction t as [|c t (r & E & Hr)]; [now exists "" |].
  destruct (rstrip t) as [|d t'] eqn:Et.
  - rewrite (rstrip_cons_empty _ _ Et). simpl in E. subst r.
    destruct (isspace c) eqn:Hc.
    + exists (String c t). simpl. now rewrite Hc, Hr.
    + now exists t.
  - rewrite rstrip_cons_more by (rewrite Et; discriminate).
    exists r. rewrite Et. simpl in *. now rewrite <- E.
Qed.

Lemma rstrip_end (t : string) : ends_with_space (rstrip t) = false.
Proof.
  induction t as [|c t IH]; [reflexivity |].
  destruct (rstrip t) as [|d t'] eqn:Et.
  - rewrite (rstrip_cons_empty _ _ Et).
    destruct (isspace c) eqn:Hc; simpl; [reflexivity | assumption].
  - rewrite rstrip_cons_more by (rewrite Et; discriminate).
    rewrite Et. exact IH.
Qed.

Lemma rstrip_start (t : string) :
  starts_with_space t = false -> starts_with_space (rstrip t) = false.
Proof.
  destruct t as [|c t]; [reflexivity |]. simpl. intros Hc.
  destruct (rstrip t); [now rewrite Hc | exact Hc].
Qed.

Lemma rstrip_idem (t : string) : rstrip (rstrip t) = rstrip t.
Proof.
  induction t as [|c t IH]; [reflexivity |].
  destruct (rstrip t) as [|d t'] eqn:Et.
  - rewrite (rstrip_cons_empty _ _ Et).
    destruct (isspace c) eqn:Hc; simpl; [reflexivity | now rewrite Hc].
  - rewrite rstrip_cons_more by (rewrite Et; discriminate).
    rewrite Et. rewrite rstrip_cons_more by (rewrite IH; discriminate).
    now rewrite IH.
Qed.

Lemma strip_trimmed (s : string) : trimmed_of s (strip s).
Proof.
  destruct (lstrip_decomp s) as (l & El & Hl).
  destruct (rstrip_decomp (lstrip s)) as (r & Er & Hr).
  exists l, r. unfold strip. repeat split; try assumption.
  - now rewrite <- Er.
  - apply rstrip_start, lstrip_start.
  - apply rstrip_end.
Qed.

Lemma strip_idem (s : string) : strip (strip s) = strip s.
Proof.
  unfold strip.
  rewrite (lstrip_id (rstrip (lstrip s))) by apply rstrip_start, lstrip_start.
  apply rstrip_idem.
Qed.

Lemma lstrip_all_space (s : string) : all_space s = true -> lstrip s = "".
Proof.
  induction s as [|c r IH]; [reflexivity |].
  simpl. intros H. apply andb_true_iff in H as [-> Hr]. auto.
Qed.

Lemma lstrip_append_space (l x : string) :
  all_space l = true -> lstrip (l +:+ x) = lstrip x.
Proof.
  induction l as [|c l IH]; [reflexivity |].
  simpl. intros H. apply andb_true_iff in H as [-> Hl]. auto.
Qed.

Lemma rstrip_all_space (r : string) : all_space r = true -> rstrip r = "".
Proof.
  induction r as [|c r IH]; [reflexivity |].
  simpl. intros H. apply andb_true_iff in H as [-> Hr]. now rewrite IH.
Qed.

Lemma rstrip_append_space (t r : string) :
  all_space r = true -> rstrip (t +:+ r) = rstrip t.
Proof.
  intros Hr. induction t as [|c t IH].
  - now apply rstrip_all_space.
  - simpl. now rewrite IH.
Qed.

Lemma rstrip_id (t : string) : ends_with_space t = false -> rstrip t = t.
Proof.
  induction t as [|c t IH]; [reflexivity |].
  destruct t as [|d t].
  - simpl. now intros ->.
  - intros H. rewrite rstrip_cons_more; rewrite (IH H); [reflexivity | discriminate].
Qed.

(** [trimmed_of s] has one solution, the result of [strip]. *)
Lemma trimmed_of_strip (s t : string) : trimmed_of s t <-> t = strip s.
Proof.
  split; [| intros ->; apply strip_trimmed].
  intros (l & r & -> & Hl & Hr & Hstart & Hend). unfold strip.
  rewrite (lstrip_append_space _ _ Hl). destruct t as [|c t].
  - simpl. now rewrite (lstrip_all_space _ Hr).
  - rewrite lstrip_id by exact Hstart.
    now rewrite (rstrip_append_space _ _ Hr), (rstrip_id _ Hend).
Qed.

Lemma contains_lstrip (c : ascii) (s : string) :
  contains c s = false -> contains c (lstrip s) = false.
Proof.
  induction s as [|d r IH]; [reflexivity |].
  simpl. intros H. apply orb_false_iff in H as [Hd Hr].
  destruct (isspace d); [auto | simpl; now rewrite Hd, Hr].
Qed.

Lemma contains_rstrip (c : ascii) (s : string) :
  contains c s = false -> contains c (rstrip s) = false.
Proof.
  induction s as [|d r IH]; [reflexivity |].
  simpl. intros H. apply orb_false_iff in H as [Hd Hr].
  specialize (IH Hr). destruct (rstrip r) as [|e r'].
  - destruct (isspace d); simpl; [reflexivity | now rewrite Hd].
  - change (Ascii.eqb d c || contains c (String e r') = false).
    now rewrite Hd, IH.
Qed.

Lemma contains_strip (c : ascii) (s : string) :
  contains c s = false -> contains c (strip s) = false.
Proof. intros H. apply contains_rstrip, contains_lstrip, H. Qed.

Lemma strip_all_space (s : string) : all_space s = true -> strip s = "".
Proof. intros H. unfold strip. now rewrite lstrip_all_space. Qed.

Lemma rstrip_empty (t : string) : rstrip t = "" -> all_space t = true.
Proof.
  induction t as [|c t IH]; [reflexivity |].
  simpl. destruct (rstrip t) as [|d t']; [| discriminate].
  destruct (isspace c); [intros _; now rewrite IH | discriminate].
Qed.

Lemma all_space_append (a b : string) :
  all_space a = true -> all_space b = true -> all_space (a +:+ b) = true.
Proof.
  induction a as [|c a IH]; [auto |].
  simpl. intros H Hb. apply andb_true_iff in H as [-> Ha]. auto.
Qed.

Lemma strip_empty (s : string) : strip s = "" -> all_space s = true.
Proof.
  unfold strip. intros H. apply rstrip_empty in H.
  destruct (lstrip_decomp s) as (l & E & Hl).
  rewrite E. now apply all_space_append.
Qed.

Lemma lower_empty (s : string) : lower s = "" <-> s = "".
Proof. destruct s; simpl; split; congruence. Qed.

Lemma truthy_str_true (s : string) : truthy s = true <-> s <> "".
Proof. destruct s; cbv [truthy truthy_str]; split; congruence. Qed.

Lemma truthy_str_false (s : string) : truthy s = false <-> s = "".
Proof. destruct s; cbv [truthy truthy_str]; split; congruence. Qed.

End Strip.

(** ** The parser *)

Section Parser.

(** The list comprehension of [_parse_model_list]. *)
Local Abbreviation stripped_models :=
  (flat_map (fun model => if truthy (strip model) then [strip model] else [])).

Lemma parse_None : _parse_model_list None = Ok [].
Proof. reflexivity. Qed.

Lemma parse_Some (s : string) :
  _parse_model_list (Some s) = Ok (stripped_models (split "," s)).
Proof. destruct s; reflexivity. Qed.

Lemma stripped_models_filter (segments : list string) :
  stripped_models segments = filter (fun t => t <> "") (map strip segments).
Proof.
  induction segments as [|seg segments IH]; [reflexivity |].
  cbn [flat_map map]. rewrite filter_cons, <- IH.
  destruct (strip seg); simpl; reflexivity.
Qed.

Lemma stripped_models_length (segments : list string) :
  length (stripped_models segments) <= length segments.
Proof.
  induction segments as [|seg segments IH]; [reflexivity |].
  cbn [flat_map]. rewrite length_app.
  destruct (truthy (strip seg)); simpl; lia.
Qed.

Lemma stripped_models_ids (segments : list string) :
  Forall (fun seg => contains "," seg = false) segments ->
  Forall model_id (stripped_models segments).
Proof.
  induction 1 as [|seg segments Hseg _ IH]; [constructor |].
  cbn [flat_map]. destruct (truthy (strip seg)) eqn:Ht; [| exact IH].
  constructor; [| exact IH]. repeat split.
  - now apply truthy_str_true.
  - apply strip_idem.
  - now apply contains_strip.
Qed.

Lemma stripped_models_id (models : list string) :
  Forall model_id models -> stripped_models models = models.
Proof.
  induction 1 as [|m models (Hne & Hstrip & _) _ IH]; [reflexivity |].
  cbn [flat_map]. rewrite Hstrip, IH.
  apply truthy_str_true in Hne. now rewrite Hne.
Qed.

Lemma stripped_models_blank (segments : list string) :
  Forall (fun seg => all_space seg = true) segments ->
  stripped_models segments = [].
Proof.
  induction 1 as [|seg segments Hseg _ IH]; [reflexivity |].
  cbn [flat_map]. now rewrite (strip_all_space _ Hseg), IH.
Qed.

Lemma split_only_commas_and_space (s : string) :
  only_commas_and_space s = true ->
  Forall (fun seg => all_space seg = true) (split "," s).
Proof.
  induction s as [|c r IH]; [now repeat constructor |].
  simpl only_commas_and_space. intros H.
  apply andb_true_iff in H as [Hc Hr]. specialize (IH Hr).
  destruct (Ascii.eqb c ",") eqn:Ec.
  - simpl. rewrite Ec. now constructor.
  - destruct (split_other "," c r Ec) as (seg & segs & E & ->).
    rewrite E in IH. inversion IH as [|? ? Hseg Hsegs]; subst.
    constructor; [| assumption]. simpl in *. now rewrite Hc, Hseg.
Qed.

Lemma parse_only_commas_and_space (s : string) :
  only_commas_and_space s = true -> _parse_model_list (Some s) = Ok [].
Proof.
  intros H. rewrite parse_Some.
  now rewrite (stripped_models_blank _ (split_only_commas_and_space s H)).
Qed.

Lemma parse_total (value : option string) :
  exists models, _parse_model_list value = Ok models.
Proof.
  destruct value as [s|]; [rewrite parse_Some | rewrite parse_None]; eauto.
Qed.

Lemma parse_model_ids (value : option string) (models : list string) :
  _parse_model_list value = Ok models -> Forall model_id models.
Proof.
  destruct value as [s|].
  - rewrite parse_Some. intros [= <-].
    apply stripped_models_ids, split_sep_free.
  - rewrite parse_None. intros [= <-]. constructor.
Qed.

Lemma join_model_ids_truthy (x : string) (models : list string) :
  x <> "" -> join "," (x :: models) <> "".
Proof.
  destruct x as [|c x]; [congruence |]. intros _.
  destruct models; [discriminate |]. rewrite join_cons2. discriminate.
Qed.

Lemma parse_join (models : list string) :
  Forall model_id models -> _parse_model_list (Some (join "," models)) = Ok models.
Proof.
  intros H. rewrite parse_Some. destruct models as [|x models]; [reflexivity |].
  rewrite split_join, (stripped_models_id _ H); [reflexivity | discriminate |].
  eapply Forall_impl; [exact H |]. now intros m (_ & _ & Hm).
Qed.

End Parser.

(** ** The module body *)

Section Module.

Variable env : environment.

Lemma COUNCIL_MODELS_cases :
  exists parsed,
    _parse_model_list (getenv env "COUNCIL_MODELS") = Ok parsed /\
    (parsed <> [] /\ COUNCIL_MODELS env = Ok parsed \/
     parsed = [] /\ COUNCIL_MODELS env = Ok default_council_models).
Proof.
  unfold COUNCIL_MODELS.
  destruct (parse_total (getenv env "COUNCIL_MODELS")) as (parsed & E).
  exists parsed. rewrite E. split; [reflexivity |].
  destruct parsed; [right | left]; now split.
Qed.

Lemma COUNCIL_MODELS_not_empty :
  exists council first rest,
    COUNCIL_MODELS env = Ok council /\ council = first :: rest.
Proof.
  destruct COUNCIL_MODELS_cases as (parsed & _ & [(Hne & E) | (_ & E)]).
  - destruct parsed as [|first rest]; [congruence |].
    now exists (first :: rest), first, rest.
  - eexists _, _, _. split; [exact E | reflexivity].
Qed.

Lemma config_module_runs :
  exists council chairman,
    COUNCIL_MODELS env = Ok council /\
    CHAIRMAN_MODEL env council = Ok chairman /\
    config_module env =
      Ok (Config (OPENROUTER_API_KEY env) council chairman
            (REASONING_EFFORT env) OPENROUTER_API_URL DATA_DIR).
Proof.
  destruct COUNCIL_MODELS_not_empty as (council & first & rest & E & ->).
  assert (exists chairman, CHAIRMAN_MODEL env (first :: rest) = Ok chairman)
    as (chairman & Ech).
  { unfold CHAIRMAN_MODEL.
    destruct (getenv env "CHAIRMAN_MODEL") as [s|]; [| now exists first].
    destruct (truthy s); [now exists s | now exists first]. }
  exists (first :: rest), chairman. unfold config_module.
  rewrite E. simpl. rewrite Ech. now simpl.
Qed.

End Module.

(** ** Properties of the configuration *)

(** C1. When [COUNCIL_MODELS] is unset, is the empty string, or is a string
    that parses to the empty sequence (in particular one made only of
    commas and whitespace), the module body runs and the council model list
    is the built-in default: the four identifiers below, in this order. *)
Theorem council_models_default (env : environment) :
  getenv env "COUNCIL_MODELS" = None \/
  getenv env "COUNCIL_MODELS" = Some "" \/
  (exists s, getenv env "COUNCIL_MODELS" = Some s /\
             _parse_model_list (Some s) = Ok []) \/
  (exists s, getenv env "COUNCIL_MODELS" = Some s /\
             only_commas_and_space s = true) ->
  exists cfg,
    config_module env = Ok cfg /\
    council_models cfg =
      [ "anthropic/claude-haiku-4.5"; "google/gemini-3-flash-preview";
        "openai/gpt-5-mini"; "x-ai/grok-4.1-fast" ].
Proof.
  intros H.
  assert (_parse_model_list (getenv env "COUNCIL_MODELS") = Ok []) as Hp.
  { destruct H as [-> | [-> | [(s & -> & Hs) | (s & -> & Hs)]]].
    - reflexivity.
    - reflexivity.
    - exact Hs.
    - now apply parse_only_commas_and_space. }
  destruct (config_module_runs env) as (council & chairman & Ec & _ & Hcfg).
  eexists. split; [exact Hcfg |]. simpl.
  unfold COUNCIL_MODELS in Ec. rewrite Hp in Ec. simpl in Ec.
  now injection Ec as <-.
Qed.

Lemma council_models_default_witness :
  let env := environ_of [("COUNCIL_MODELS", ", , ,")] in
  _parse_model_list (getenv env "COUNCIL_MODELS") = Ok [] /\
  exists cfg,
    config_module env = Ok cfg /\
    council_models cfg = default_council_models.
Proof.
  split; [reflexivity |].
  apply (council_models_default (environ_of [("COUNCIL_MODELS", ", , ,")])).
  right; right; right. exists ", , ,". split; reflexivity.
Defined.

(** C2. When [CHAIRMAN_MODEL] is unset or the empty string, the chairman
    is element 0 of the resolved council list, whatever that list is; when
    it is set to a non-empty value, the chairman is that value as it
    stands.  No membership in the council list is looked at, and the
    module body runs in every case. *)
Theorem chairman_model_resolution (env : environment) :
  exists cfg,
    config_module env = Ok cfg /\
    (getenv env "CHAIRMAN_MODEL" = None \/
     getenv env "CHAIRMAN_MODEL" = Some "" ->
     council_models cfg !! 0 = Some (chairman_model cfg)) /\
    (forall s, getenv env "CHAIRMAN_MODEL" = Some s -> s <> "" ->
               chairman_model cfg = s).
Proof.
  destruct (config_module_runs env) as (council & chairman & _ & Hch & Hcfg).
  eexists. split; [exact Hcfg |]. simpl.
  unfold CHAIRMAN_MODEL, getitem in Hch. split.
  - intros [E | E]; rewrite E in Hch; simpl in Hch;
      destruct (council !! 0); congruence.
  - intros s E Hs. rewrite E in Hch.
    apply truthy_str_true in Hs. rewrite Hs in Hch. congruence.
Qed.

Lemma chairman_model_resolution_witness :
  let env := environ_of [("COUNCIL_MODELS", "a,b"); ("CHAIRMAN_MODEL", "z")] in
  exists cfg,
    config_module env = Ok cfg /\
    council_models cfg = ["a"; "b"] /\
    chairman_model cfg = "z".
Proof.
  destruct (chairman_model_resolution
              (environ_of [("COUNCIL_MODELS", "a,b"); ("CHAIRMAN_MODEL", "z")]))
    as (cfg & Hcfg & _ & Hset).
  exists cfg. split; [exact Hcfg |]. split.
  - vm_compute in Hcfg. now injection Hcfg as <-.
  - apply Hset; [reflexivity | discriminate].
Defined.

(** C3. The parser returns, in order, the comma-delimited segments of its
    input, each trimmed of its surrounding whitespace, without the
    segments that are empty once trimmed; nothing is deduplicated.  [None]
    and the empty string give the empty sequence. *)
Theorem parse_model_list_spec :
  _parse_model_list None = Ok [] /\
  _parse_model_list (Some "") = Ok [] /\
  (forall s : string,
     exists segments trimmed,
       comma_segments s segments /\
       Forall2 trimmed_of segments trimmed /\
       _parse_model_list (Some s) = Ok (filter (fun t => t <> "") trimmed)) /\
  (forall (s : string) (segments trimmed : list string),
     comma_segments s segments ->
     Forall2 trimmed_of segments trimmed ->
     _parse_model_list (Some s) = Ok (filter (fun t => t <> "") trimmed)) /\
  _parse_model_list (Some "a,,b") = Ok ["a"; "b"] /\
  _parse_model_list (Some "a, ,b") = Ok ["a"; "b"] /\
  _parse_model_list (Some " b ,a, b") = Ok ["b"; "a"; "b"].
Proof.
  assert (forall segments, Forall2 trimmed_of segments (map strip segments))
    as Htrim.
  { intros segments. apply Forall2_fmap_r, Forall_Forall2_diag, Forall_forall.
    intros seg _. apply strip_trimmed. }
  split; [reflexivity |]. split; [reflexivity |]. split; [| split].
  - intros s. exists (split "," s), (map strip (split "," s)).
    split; [now apply comma_segments_split |]. split; [apply Htrim |].
    rewrite parse_Some. f_equal. apply stripped_models_filter.
  - intros s segments trimmed Hseg%comma_segments_split Htr. subst segments.
    assert (trimmed = map strip (split "," s)) as ->.
    { induction Htr as [|seg t segs ts Ht%trimmed_of_strip _ IH];
        [reflexivity | simpl; congruence]. }
    rewrite parse_Some. f_equal. apply stripped_models_filter.
  - repeat split; reflexivity.
Qed.

(** C4, as the code has it.  When [REASONING_EFFORT] is unset or is the
    empty string, the resolved reasoning effort is ["medium"]; when it is
    set to a value that is not blank, the resolved value is that value
    trimmed of its surrounding whitespace and lower-cased. *)
Theorem reasoning_effort_resolution (env : environment) :
  exists cfg,
    config_module env = Ok cfg /\
    (getenv env "REASONING_EFFORT" = None \/
     getenv env "REASONING_EFFORT" = Some "" ->
     reasoning_effort cfg = Some "medium") /\
    (forall s, getenv env "REASONING_EFFORT" = Some s -> strip s <> "" ->
               reasoning_effort cfg = Some (lower (strip s))).
Proof.
  destruct (config_module_runs env) as (council & chairman & _ & _ & Hcfg).
  eexists. split; [exact Hcfg |]. simpl. unfold REASONING_EFFORT. split.
  - intros [-> | ->]; reflexivity.
  - intros s -> Hs.
    assert (s <> "") as Hne by (intros ->; now apply Hs).
    apply truthy_str_true in Hne. rewrite Hne.
    assert (truthy (lower (strip s)) = true) as ->; [| reflexivity].
    apply truthy_str_true. now rewrite lower_empty.
Qed.

Lemma reasoning_effort_resolution_witness :
  let env := environ_of [("REASONING_EFFORT", "  HIGH  ")] in
  exists cfg,
    config_module env = Ok cfg /\ reasoning_effort cfg = Some "high".
Proof.
  destruct (reasoning_effort_resolution
              (environ_of [("REASONING_EFFORT", "  HIGH  ")]))
    as (cfg & Hcfg & _ & Hset).
  exists cfg. split; [exact Hcfg |].
  apply (Hset "  HIGH  "); [reflexivity | discriminate].
Defined.

(** C4 as stated fails when [REASONING_EFFORT] is set to the empty string:
    the resolved value is ["medium"], which is not the input trimmed and
    lower-cased. *)
Lemma reasoning_effort_set_empty :
  let env := environ_of [("REASONING_EFFORT", "")] in
  getenv env "REASONING_EFFORT" = Some "" /\
  exists cfg,
    config_module env = Ok cfg /\
    reasoning_effort cfg = Some "medium" /\
    reasoning_effort cfg <> Some (lower (strip "")) /\
    reasoning_effort cfg <> None.
Proof.
  split; [reflexivity |]. eexists. split; [reflexivity |].
  split; [reflexivity |]. split; discriminate.
Qed.

(** C5, as the code has it.  When [REASONING_EFFORT] is set to a blank
    value, the resolved reasoning effort is absent if the value has at
    least one (whitespace) character, and ["medium"] if it is the empty
    string; with the variable unset it is ["medium"].  So the empty string
    resolves as unset does, and a value of whitespace does not. *)
Theorem reasoning_effort_blank (env : environment) (s : string) :
  getenv env "REASONING_EFFORT" = Some s ->
  lower (strip s) = "" ->
  exists cfg cfg_unset,
    config_module env = Ok cfg /\
    config_module (delete "REASONING_EFFORT" env) = Ok cfg_unset /\
    reasoning_effort cfg_unset = Some "medium" /\
    reasoning_effort cfg = (if decide (s = "") then Some "medium" else None).
Proof.
  intros E Hblank.
  destruct (config_module_runs env) as (? & ? & _ & _ & Hcfg).
  destruct (config_module_runs (delete "REASONING_EFFORT" env))
    as (? & ? & _ & _ & Hunset).
  eexists _, _. split; [exact Hcfg |]. split; [exact Hunset |]. simpl.
  unfold REASONING_EFFORT, getenv. rewrite lookup_delete_eq. split; [reflexivity |].
  unfold getenv in E. rewrite E. case_decide as Hs.
  - now subst s.
  - apply truthy_str_true in Hs. now rewrite Hs, Hblank.
Qed.

Lemma reasoning_effort_blank_witness :
  let env := environ_of [("REASONING_EFFORT", "   ")] in
  exists cfg cfg_unset,
    config_module env = Ok cfg /\
    config_module (delete "REASONING_EFFORT" env) = Ok cfg_unset /\
    reasoning_effort cfg_unset = Some "medium" /\
    reasoning_effort cfg = None.
Proof.
  exact (reasoning_effort_blank
           (environ_of [("REASONING_EFFORT", "   ")]) "   " eq_refl eq_refl).
Defined.

(** C5 as stated fails when [REASONING_EFFORT] is ["   "]: the resolved
    value is absent, and it is ["medium"] once the variable is unset. *)
Lemma reasoning_effort_blank_differs_from_unset :
  let env := environ_of [("REASONING_EFFORT", "   ")] in
  lower (strip "   ") = "" /\
  exists cfg cfg_unset,
    config_module env = Ok cfg /\
    config_module (delete "REASONING_EFFORT" env) = Ok cfg_unset /\
    reasoning_effort cfg = None /\
    reasoning_effort cfg_unset = Some "medium" /\
    reasoning_effort cfg <> reasoning_effort cfg_unset.
Proof.
  split; [reflexivity |]. eexists _, _.
  split; [reflexivity |]. split; [reflexivity |].
  split; [reflexivity |]. split; [reflexivity | discriminate].
Qed.

(** C6. The council model list is never empty once resolved: it is the
    parsed list when that one is not empty, and the built-in default of
    four identifiers otherwise. *)
Theorem council_models_not_empty (env : environment) :
  exists cfg,
    config_module env = Ok cfg /\
    council_models cfg <> [] /\
    (_parse_model_list (getenv env "COUNCIL_MODELS") = Ok (council_models cfg) \/
     _parse_model_list (getenv env "COUNCIL_MODELS") = Ok [] /\
     council_models cfg = default_council_models /\
     length default_council_models = 4).
Proof.
  destruct (config_module_runs env) as (council & chairman & Ec & _ & Hcfg).
  eexists. split; [exact Hcfg |]. simpl.
  destruct (COUNCIL_MODELS_cases env)
    as (parsed & Hp & [(Hne & E) | (-> & E)]);
    rewrite E in Ec; injection Ec as <-.
  - split; [exact Hne | now left].
  - split; [discriminate | right; repeat split; assumption].
Qed.

(** C7. Whatever the environment holds, running the module body raises
    nothing; the subscript [COUNCIL_MODELS[0]] in particular finds an
    element, the resolved council list having one. *)
Theorem config_module_never_raises (env : environment) :
  (exists cfg, config_module env = Ok cfg) /\
  (forall e, config_module env <> Raise e) /\
  exists council first,
    COUNCIL_MODELS env = Ok council /\ getitem council 0 = Ok first.
Proof.
  destruct (config_module_runs env) as (council & chairman & _ & _ & Hcfg).
  split; [eauto |]. split; [intros e; rewrite Hcfg; discriminate |].
  destruct (COUNCIL_MODELS_not_empty env) as (c & first & rest & E & ->).
  now exists (first :: rest), first.
Qed.

(** C8. Joining the parsed models with a comma and parsing again gives
    the same models, for every input. *)
Theorem parse_join_parse (value : option string) :
  exists models,
    _parse_model_list value = Ok models /\
    _parse_model_list (Some (join "," models)) = Ok models.
Proof.
  destruct (parse_total value) as (models & E).
  exists models. split; [exact E |].
  apply parse_join, (parse_model_ids value), E.
Qed.

(** C9. The parser is a total function of its argument alone: on every
    input, [None] included, it returns a list and raises nothing.  The
    list has at most one entry per comma-delimited segment, and each entry
    is a non-empty trimmed string without comma. *)
Theorem parse_model_list_total (value : option string) :
  exists models,
    _parse_model_list value = Ok models /\
    (forall e, _parse_model_list value <> Raise e) /\
    length models <= S (count_char "," (default "" value)) /\
    Forall model_id models.
Proof.
  destruct (parse_total value) as (models & E).
  exists models. split; [exact E |].
  split; [intros e; rewrite E; discriminate |].
  split; [| apply (parse_model_ids value), E].
  destruct value as [s|].
  - rewrite parse_Some in E. injection E as <-. simpl.
    rewrite <- (length_split "," s). apply stripped_models_length.
  - rewrite parse_None in E. injection E as <-. simpl. lia.
Qed.

(** C10. A [CHAIRMAN_MODEL] that is set and not empty is the chairman as
    it stands, its whitespace included, whatever the council list is: the
    subscript [COUNCIL_MODELS[0]] is not evaluated.  Only the empty string
    falls back to element 0 of the council list. *)
Theorem chairman_model_not_trimmed (env : environment) (s : string) :
  getenv env "CHAIRMAN_MODEL" = Some s ->
  exists cfg,
    config_module env = Ok cfg /\
    (s <> "" ->
     chairman_model cfg = s /\
     forall council, CHAIRMAN_MODEL env council = Ok s) /\
    (s = "" ->
     council_models cfg !! 0 = Some (chairman_model cfg) /\
     forall council, CHAIRMAN_MODEL env council = getitem council 0).
Proof.
  intros E.
  destruct (config_module_runs env) as (council & chairman & _ & Hch & Hcfg).
  eexists. split; [exact Hcfg |]. simpl.
  unfold CHAIRMAN_MODEL in *. rewrite E in *. split.
  - intros Hs. apply truthy_str_true in Hs. rewrite Hs in *.
    split; [congruence | reflexivity].
  - intros ->. simpl in *. split; [| reflexivity].
    unfold getitem in Hch. destruct (council !! 0); congruence.
Qed.

Lemma chairman_model_not_trimmed_witness :
  (let env := environ_of [("CHAIRMAN_MODEL", "   ")] in
   exists cfg, config_module env = Ok cfg /\ chairman_model cfg = "   ") /\
  (let env := environ_of [("CHAIRMAN_MODEL", "  m  ")] in
   exists cfg, config_module env = Ok cfg /\ chairman_model cfg = "  m  ").
Proof.
  split.
  - destruct (chairman_model_not_trimmed
                (environ_of [("CHAIRMAN_MODEL", "   ")]) "   " eq_refl)
      as (cfg & Hcfg & Hkept & _).
    exists cfg. split; [exact Hcfg |]. now apply Hkept.
  - destruct (chairman_model_not_trimmed
                (environ_of [("CHAIRMAN_MODEL", "  m  ")]) "  m  " eq_refl)
      as (cfg & Hcfg & Hkept & _).
    exists cfg. split; [exact Hcfg |]. now apply Hkept.
Defined.

(** ** Further properties: normal forms of the resolved values *)

Section NormalForms.

Local Arguments String.append !s1 s2 : simpl nomatch.

Lemma isspace_lower_char (c : ascii) : isspace (lower_char c) = isspace c.
Proof. destruct c as [[] [] [] [] [] [] [] []]; reflexivity. Qed.

Lemma lower_char_idem (c : ascii) : lower_char (lower_char c) = lower_char c.
Proof. destruct c as [[] [] [] [] [] [] [] []]; reflexivity. Qed.

Lemma lower_idem (s : string) : lower (lower s) = lower s.
Proof.
  induction s as [|c r IH]; [reflexivity |].
  simpl. now rewrite lower_char_idem, IH.
Qed.

Lemma lstrip_lower (s : string) : lstrip (lower s) = lower (lstrip s).
Proof.
  induction s as [|c r IH]; [reflexivity |].
  simpl. rewrite isspace_lower_char. now destruct (isspace c).
Qed.

Lemma rstrip_lower (s : string) : rstrip (lower s) = lower (rstrip s).
Proof.
  induction s as [|c r IH]; [reflexivity |].
  simpl. rewrite IH, isspace_lower_char.
  destruct (rstrip r); [now destruct (isspace c) | reflexivity].
Qed.

Lemma strip_lower (s : string) : strip (lower s) = lower (strip s).
Proof. unfold strip. now rewrite lstrip_lower, rstrip_lower. Qed.

(** What [REASONING_EFFORT] evaluates to, when it is a string. *)
Lemma REASONING_EFFORT_normal (env : environment) (e : string) :
  REASONING_EFFORT env = Some e -> e <> "" /\ strip e = e /\ lower e = e.
Proof.
  unfold REASONING_EFFORT.
  set (raw := match getenv env "REASONING_EFFORT" with
              | Some s => if truthy s then s else "medium"
              | None => "medium"
              end).
  destruct (truthy (lower (strip raw))) eqn:Ht; [| discriminate].
  intros [= <-]. split; [now apply truthy_str_true |]. split.
  - now rewrite strip_lower, strip_idem.
  - apply lower_idem.
Qed.

(** A normalised value, given as [REASONING_EFFORT], comes out unchanged. *)
Lemma REASONING_EFFORT_of_normal (env : environment) (e : string) :
  getenv env "REASONING_EFFORT" = Some e ->
  e <> "" -> strip e = e -> lower e = e ->
  REASONING_EFFORT env = Some e.
Proof.
  intros E Hne Hs Hl. unfold REASONING_EFFORT. rewrite E.
  apply truthy_str_true in Hne. now rewrite Hne, Hs, Hl, Hne.
Qed.

Lemma default_council_models_ids : Forall model_id default_council_models.
Proof. repeat constructor; discriminate. Qed.

Lemma COUNCIL_MODELS_ids (env : environment) (council : list string) :
  COUNCIL_MODELS env = Ok council -> Forall model_id council.
Proof.
  intros E.
  destruct (COUNCIL_MODELS_cases env) as (parsed & Hp & [(_ & E') | (_ & E')]);
    rewrite E' in E; injection E as <-.
  - exact (parse_model_ids _ _ Hp).
  - exact default_council_models_ids.
Qed.

(** A list of model identifiers, joined with commas and given as
    [COUNCIL_MODELS], comes out unchanged. *)
Lemma COUNCIL_MODELS_of_ids (env : environment) (models : list string) :
  getenv env "COUNCIL_MODELS" = Some (join "," models) ->
  models <> [] -> Forall model_id models ->
  COUNCIL_MODELS env = Ok models.
Proof.
  intros E Hne Hids. unfold COUNCIL_MODELS.
  rewrite E, (parse_join _ Hids). simpl.
  destruct models; [congruence | reflexivity].
Qed.

Lemma CHAIRMAN_MODEL_set (env : environment) (s : string) (council : list string) :
  getenv env "CHAIRMAN_MODEL" = Some s -> s <> "" ->
  CHAIRMAN_MODEL env council = Ok s.
Proof.
  intros E Hs. unfold CHAIRMAN_MODEL. rewrite E.
  apply truthy_str_true in Hs. now rewrite Hs.
Qed.

Lemma CHAIRMAN_MODEL_default (env : environment) (council : list string) :
  getenv env "CHAIRMAN_MODEL" = None \/ getenv env "CHAIRMAN_MODEL" = Some "" ->
  CHAIRMAN_MODEL env council = getitem council 0.
Proof. unfold CHAIRMAN_MODEL. now intros [-> | ->]. Qed.

Lemma CHAIRMAN_MODEL_not_empty
  (env : environment) (council : list string) (chairman : string) :
  Forall model_id council ->
  CHAIRMAN_MODEL env council = Ok chairman -> chairman <> "".
Proof.
  intros Hids. unfold CHAIRMAN_MODEL.
  assert (getitem council 0 = Ok chairman -> chairman <> "") as Hdefault.
  { unfold getitem. destruct council as [|first rest]; [discriminate |].
    simpl. intros [= <-]. inversion Hids as [|? ? (Hne & _) _]. exact Hne. }
  destruct (getenv env "CHAIRMAN_MODEL") as [s|]; [| exact Hdefault].
  destruct (truthy s) eqn:Hs; [| exact Hdefault].
  intros [= <-]. now apply truthy_str_true.
Qed.

End NormalForms.

(** ** Further properties: the parser on composed inputs *)

Section ParserLaws.

Local Arguments String.append !s1 s2 : simpl nomatch.

Local Abbreviation stripped_models :=
  (flat_map (fun model => if truthy (strip model) then [strip model] else [])).

Lemma stripped_models_app (l1 l2 : list string) :
  stripped_models (l1 ++ l2) = stripped_models l1 ++ stripped_models l2.
Proof.
  induction l1 as [|x l1 IH]; [reflexivity |].
  cbn [flat_map app]. now rewrite IH, app_assoc.
Qed.

Lemma split_app_sep (sep : ascii) (a b : string) :
  split sep (a +:+ String sep b) = split sep a ++ split sep b.
Proof.
  induction a as [|c a IH].
  - simpl. now rewrite Ascii.eqb_refl.
  - simpl. rewrite IH. destruct (Ascii.eqb c sep); [reflexivity |].
    destruct (split sep a) as [|seg segs] eqn:E; [| reflexivity].
    now apply split_not_nil in E.
Qed.

Lemma isspace_not_comma (c : ascii) : isspace c = true -> Ascii.eqb c "," = false.
Proof.
  destruct (Ascii.eqb c ",") eqn:E; [| reflexivity].
  apply Ascii.eqb_eq in E. now subst c.
Qed.

Lemma all_space_comma_free (s : string) :
  all_space s = true -> contains "," s = false.
Proof.
  induction s as [|c r IH]; [reflexivity |].
  simpl. intros H. apply andb_true_iff in H as [Hc Hr].
  now rewrite (isspace_not_comma _ Hc), IH.
Qed.

(** Whitespace before the input goes to its first segment. *)
Lemma split_space_before (l s : string) :
  all_space l = true ->
  exists first rest,
    split "," s = first :: rest /\
    split "," (l +:+ s) = (l +:+ first) :: rest.
Proof.
  intros Hl. destruct (split "," s) as [|first rest] eqn:E.
  { now apply split_not_nil in E. }
  exists first, rest. split; [reflexivity |].
  induction l as [|c l IH]; [exact E |].
  simpl in Hl. apply andb_true_iff in Hl as [Hc Hl].
  simpl. now rewrite (isspace_not_comma _ Hc), (IH Hl).
Qed.

(** Whitespace after the input goes to its last segment. *)
Lemma split_space_after (s r : string) :
  all_space r = true ->
  exists init last,
    split "," s = init ++ [last] /\
    split "," (s +:+ r) = init ++ [last +:+ r].
Proof.
  intros Hr. induction s as [|c s (init & last & E & E')].
  - exists [], "". split; [reflexivity |].
    simpl. now apply split_sep_free_one, all_space_comma_free.
  - simpl. rewrite E, E'. destruct (Ascii.eqb c ",").
    + now exists ("" :: init), last.
    + destruct init as [|i0 init]; simpl.
      * now exists [], (String c last).
      * now exists (String c i0 :: init), last.
Qed.

Lemma strip_space_before (l x : string) :
  all_space l = true -> strip (l +:+ x) = strip x.
Proof. intros Hl. unfold strip. now rewrite lstrip_append_space. Qed.

Lemma strip_space_after (x r : string) :
  all_space r = true -> strip (x +:+ r) = strip x.
Proof.
  intros Hr. symmetry. apply trimmed_of_strip.
  destruct (strip_trimmed x) as (l0 & r0 & E & Hl0 & Hr0 & Hstart & Hend).
  exists l0, (r0 +:+ r). repeat split; try assumption.
  - rewrite E at 1. now rewrite !append_assoc.
  - now apply all_space_append.
Qed.

Lemma stripped_models_space_before (l first : string) (rest : list string) :
  all_space l = true ->
  stripped_models ((l +:+ first) :: rest) = stripped_models (first :: rest).
Proof. intros Hl. cbn [flat_map]. now rewrite strip_space_before. Qed.

Lemma stripped_models_space_after (init : list string) (last r : string) :
  all_space r = true ->
  stripped_models (init ++ [last +:+ r]) = stripped_models (init ++ [last]).
Proof.
  intros Hr. rewrite !stripped_models_app. cbn [flat_map].
  now rewrite strip_space_after.
Qed.

(** The first segment starts the string. *)
Lemma split_head_prefix (sep : ascii) (s first : string) (rest : list string) :
  split sep s = first :: rest -> exists b, s = first +:+ b.
Proof.
  intros E. pose proof (join_split sep s) as J. rewrite E in J.
  destruct rest as [|y rest].
  - exists "". simpl in J. now rewrite append_nil_r.
  - rewrite join_cons2 in J. eauto.
Qed.

(** Every segment lies in the string. *)
Lemma split_substring (sep : ascii) (s : string) :
  Forall (fun seg => exists a b, s = a +:+ seg +:+ b) (split sep s).
Proof.
  induction s as [|c r IH]; [repeat constructor; now exists "", "" |].
  assert (forall segs,
            Forall (fun seg => exists a b, r = a +:+ seg +:+ b) segs ->
            Forall (fun seg => exists a b, String c r = a +:+ seg +:+ b) segs)
    as Hshift.
  { intros segs Hsegs. eapply Forall_impl; [exact Hsegs |].
    intros seg (a & b & ->). now exists (String c a), b. }
  destruct (Ascii.eqb c sep) eqn:Hc.
  - simpl. rewrite Hc. constructor; [| now apply Hshift].
    now exists "", (String c r).
  - destruct (split_other sep c r Hc) as (seg & segs & E & ->).
    rewrite E in IH. inversion IH as [|? ? _ Hsegs]; subst.
    constructor; [| now apply Hshift].
    destruct (split_head_prefix _ _ _ _ E) as (b & ->). now exists "", b.
Qed.

Lemma stripped_models_substring (s : string) (segments : list string) :
  Forall (fun seg => exists a b, s = a +:+ seg +:+ b) segments ->
  Forall (fun m => exists a b, s = a +:+ m +:+ b) (stripped_models segments).
Proof.
  induction 1 as [|seg segments (a & b & E) _ IH]; [constructor |].
  cbn [flat_map]. destruct (truthy (strip seg)); [| exact IH].
  constructor; [| exact IH].
  destruct (strip_trimmed seg) as (l & r & Eseg & _).
  exists (a +:+ l), (r +:+ b). rewrite E. rewrite Eseg at 1.
  now rewrite !append_assoc.
Qed.

Lemma stripped_models_empty (segments : list string) :
  stripped_models segments = [] ->
  Forall (fun seg => all_space seg = true) segments.
Proof.
  induction segments as [|seg segments IH]; [constructor |].
  cbn [flat_map]. destruct (truthy (strip seg)) eqn:Ht; [discriminate |].
  intros H. constructor; [| now apply IH].
  now apply strip_empty, truthy_str_false.
Qed.

Lemma split_all_space_only (s : string) :
  Forall (fun seg => all_space seg = true) (split "," s) ->
  only_commas_and_space s = true.
Proof.
  induction s as [|c r IH]; [reflexivity |].
  destruct (Ascii.eqb c ",") eqn:Hc.
  - simpl. rewrite Hc. intros H. inversion H; subst. auto.
  - destruct (split_other "," c r Hc) as (seg & segs & E & ->).
    rewrite E in IH. intros H. inversion H as [|? ? Hseg Hsegs]; subst.
    simpl in Hseg. apply andb_true_iff in Hseg as [Hsp Hseg].
    simpl. rewrite Hc, Hsp. simpl. apply IH. now constructor.
Qed.

End ParserLaws.

(** ** Further properties of the configuration *)

(** X1. The resolved reasoning effort is either absent or a string in
    normal form: not empty, without surrounding whitespace, and equal to
    its own lower-casing. *)
Theorem reasoning_effort_normalised (env : environment) :
  exists cfg,
    config_module env = Ok cfg /\
    (reasoning_effort cfg = None \/
     exists e, reasoning_effort cfg = Some e /\
               e <> "" /\ strip e = e /\ lower e = e).
Proof.
  destruct (config_module_runs env) as (council & chairman & _ & _ & Hcfg).
  eexists. split; [exact Hcfg |]. simpl.
  destruct (REASONING_EFFORT env) as [e|] eqn:E; [right | now left].
  exists e. split; [reflexivity |]. exact (REASONING_EFFORT_normal env e E).
Qed.

(** X2. Every entry of the resolved council list, parsed or default, is
    a non-empty string without surrounding whitespace and without comma. *)
Theorem council_models_well_formed (env : environment) :
  exists cfg,
    config_module env = Ok cfg /\ Forall model_id (council_models cfg).
Proof.
  destruct (config_module_runs env) as (council & chairman & Ec & _ & Hcfg).
  eexists. split; [exact Hcfg |]. simpl. exact (COUNCIL_MODELS_ids env _ Ec).
Qed.

(** X3. The resolved chairman is never the empty string; when
    [CHAIRMAN_MODEL] is unset or empty it is moreover an entry of the
    council list, hence a well-formed model identifier. *)
Theorem chairman_model_never_empty (env : environment) :
  exists cfg,
    config_module env = Ok cfg /\
    chairman_model cfg <> "" /\
    (getenv env "CHAIRMAN_MODEL" = None \/
     getenv env "CHAIRMAN_MODEL" = Some "" ->
     In (chairman_model cfg) (council_models cfg) /\
     model_id (chairman_model cfg)).
Proof.
  destruct (config_module_runs env) as (council & chairman & Ec & Hch & Hcfg).
  pose proof (COUNCIL_MODELS_ids env _ Ec) as Hids.
  eexists. split; [exact Hcfg |]. simpl.
  split; [exact (CHAIRMAN_MODEL_not_empty env council chairman Hids Hch) |].
  intros Hunset. rewrite (CHAIRMAN_MODEL_default env council Hunset) in Hch.
  unfold getitem in Hch. destruct council as [|first rest]; [discriminate |].
  simpl in Hch. injection Hch as <-.
  split; [now left | now inversion Hids].
Qed.

(** X4. The expression that resolves the chairman raises exactly when
    [CHAIRMAN_MODEL] is unset or empty and the council list it is given
    is empty, and what it raises then is [IndexError]. *)
Theorem CHAIRMAN_MODEL_raises
  (env : environment) (council : list string) (e : exn) :
  CHAIRMAN_MODEL env council = Raise e <->
  e = IndexError /\ council = [] /\
  (getenv env "CHAIRMAN_MODEL" = None \/
   getenv env "CHAIRMAN_MODEL" = Some "").
Proof.
  assert (getitem council 0 = Raise e <-> e = IndexError /\ council = [])
    as Hget.
  { unfold getitem. destruct council as [|first rest]; simpl.
    - split; [intros [= <-]; now split | intros (-> & _); reflexivity].
    - split; [discriminate | intros (_ & [=])]. }
  unfold CHAIRMAN_MODEL.
  destruct (getenv env "CHAIRMAN_MODEL") as [[|c s]|]; simpl.
  - rewrite Hget. intuition.
  - split; [discriminate |]. intros (_ & _ & [[=] | [=]]).
  - rewrite Hget. intuition.
Qed.

(** X5. Parsing two inputs put together with a comma between them gives
    the models of the first followed by the models of the second. *)
Theorem parse_comma_concat (a b : string) :
  exists la lb,
    _parse_model_list (Some a) = Ok la /\
    _parse_model_list (Some b) = Ok lb /\
    _parse_model_list (Some (a +:+ "," +:+ b)) = Ok (la ++ lb).
Proof.
  eexists _, _. split; [apply parse_Some |]. split; [apply parse_Some |].
  rewrite parse_Some.
  change (a +:+ "," +:+ b) with (a +:+ String "," b).
  now rewrite split_app_sep, stripped_models_app.
Qed.

(** X6. Every model the parser returns is a piece of its input: the
    parser makes up no identifier and changes no character of one. *)
Theorem parse_entries_in_input (s : string) :
  exists models,
    _parse_model_list (Some s) = Ok models /\
    Forall (fun m => exists a b, s = a +:+ m +:+ b) models.
Proof.
  eexists. split; [apply parse_Some |].
  apply stripped_models_substring, split_substring.
Qed.

(** X7. Whitespace before and after the whole input does not change the
    parsed models. *)
Theorem parse_ignores_outer_space (l s r : string) :
  all_space l = true ->
  all_space r = true ->
  exists models,
    _parse_model_list (Some s) = Ok models /\
    _parse_model_list (Some (l +:+ s +:+ r)) = Ok models.
Proof.
  intros Hl Hr. eexists. split; [apply parse_Some |]. rewrite !parse_Some.
  destruct (split_space_after s r Hr) as (init & last & E & E').
  destruct (split_space_before l (s +:+ r) Hl) as (first & rest & F & ->).
  rewrite stripped_models_space_before by exact Hl.
  rewrite <- F, E', E. f_equal. now apply stripped_models_space_after.
Qed.

Lemma parse_ignores_outer_space_witness :
  _parse_model_list (Some "a, b") = Ok ["a"; "b"] /\
  exists models,
    _parse_model_list (Some "a, b") = Ok models /\
    _parse_model_list (Some (String "009" " a, b  ")) = Ok models.
Proof.
  split; [reflexivity |].
  exact (parse_ignores_outer_space (String "009" " ") "a, b" "  "
           eq_refl eq_refl).
Defined.

(** X8. The parser returns the empty list exactly on the inputs made
    only of commas and whitespace (the empty string among them). *)
Theorem parse_empty_iff (s : string) :
  _parse_model_list (Some s) = Ok [] <-> only_commas_and_space s = true.
Proof.
  split; [| apply parse_only_commas_and_space].
  rewrite parse_Some. intros [= H].
  now apply split_all_space_only, stripped_models_empty.
Qed.

(** X9. A [COUNCIL_MODELS] value without comma and not blank gives a
    council of one model, the value trimmed; with [CHAIRMAN_MODEL] unset
    this model is the chairman as well. *)
Theorem single_council_model (env : environment) (s : string) :
  getenv env "COUNCIL_MODELS" = Some s ->
  contains "," s = false ->
  strip s <> "" ->
  getenv env "CHAIRMAN_MODEL" = None ->
  exists cfg,
    config_module env = Ok cfg /\
    council_models cfg = [strip s] /\
    chairman_model cfg = strip s.
Proof.
  intros E Hfree Hs Hch.
  destruct (config_module_runs env) as (council & chairman & Ec & Hc & Hcfg).
  eexists. split; [exact Hcfg |]. simpl.
  unfold COUNCIL_MODELS in Ec.
  rewrite E, parse_Some, (split_sep_free_one _ _ Hfree) in Ec.
  apply truthy_str_true in Hs. cbn [flat_map] in Ec. rewrite Hs in Ec.
  simpl in Ec. injection Ec as <-.
  rewrite (CHAIRMAN_MODEL_default env _ (or_introl Hch)) in Hc.
  now injection Hc as <-.
Qed.

Lemma single_council_model_witness :
  let env := environ_of [("COUNCIL_MODELS", "  openai/gpt-5-mini ")] in
  exists cfg,
    config_module env = Ok cfg /\
    council_models cfg = ["openai/gpt-5-mini"] /\
    chairman_model cfg = "openai/gpt-5-mini".
Proof.
  apply (single_council_model
           (environ_of [("COUNCIL_MODELS", "  openai/gpt-5-mini ")])
           "  openai/gpt-5-mini ");
    [reflexivity | reflexivity | discriminate | reflexivity].
Defined.

(** X10. Any non-empty list of well-formed model identifiers can be
    configured as it is: joined with commas and given as [COUNCIL_MODELS],
    it is the resolved council list, in the same order and with its
    repetitions. *)
Theorem council_models_round_trip (env : environment) (models : list string) :
  models <> [] ->
  Forall model_id models ->
  getenv env "COUNCIL_MODELS" = Some (join "," models) ->
  exists cfg,
    config_module env = Ok cfg /\ council_models cfg = models.
Proof.
  intros Hne Hids E.
  destruct (config_module_runs env) as (council & chairman & Ec & _ & Hcfg).
  eexists. split; [exact Hcfg |]. simpl.
  rewrite (COUNCIL_MODELS_of_ids env models E Hne Hids) in Ec.
  now injection Ec.
Qed.

Lemma council_models_round_trip_witness :
  let env := environ_of [("COUNCIL_MODELS", "m/one,m/two,m/one")] in
  exists cfg,
    config_module env = Ok cfg /\
    council_models cfg = ["m/one"; "m/two"; "m/one"].
Proof.
  apply (council_models_round_trip
           (environ_of [("COUNCIL_MODELS", "m/one,m/two,m/one")])
           ["m/one"; "m/two"; "m/one"]).
  - discriminate.
  - repeat constructor; discriminate.
  - reflexivity.
Defined.

(** X11. Resolution is idempotent: writing the resolved council list
    (joined with commas), the resolved chairman and the resolved reasoning
    effort (one space when it is absent) back into the environment and
    running the module body again gives the same configuration. *)
Theorem config_module_fixed_point (env : environment) :
  exists cfg,
    config_module env = Ok cfg /\
    config_module
      (<["COUNCIL_MODELS" := join "," (council_models cfg)]>
         (<["CHAIRMAN_MODEL" := chairman_model cfg]>
            (<["REASONING_EFFORT" := default " " (reasoning_effort cfg)]>
               env)))
    = Ok cfg.
Proof.
  destruct (config_module_runs env) as (council & chairman & Ec & Hch & Hcfg).
  eexists. split; [exact Hcfg |]. simpl.
  set (env' := <["COUNCIL_MODELS" := _]> _).
  pose proof (COUNCIL_MODELS_ids env _ Ec) as Hids.
  assert (getenv env' "COUNCIL_MODELS" = Some (join "," council)) as Lc.
  { unfold getenv, env'. now rewrite lookup_insert_eq. }
  assert (getenv env' "CHAIRMAN_MODEL" = Some chairman) as Lch.
  { unfold getenv, env'.
    now rewrite lookup_insert_ne, lookup_insert_eq by discriminate. }
  assert (getenv env' "REASONING_EFFORT"
          = Some (default " " (REASONING_EFFORT env))) as Le.
  { unfold getenv, env'.
    now rewrite !lookup_insert_ne, lookup_insert_eq by discriminate. }
  assert (OPENROUTER_API_KEY env' = OPENROUTER_API_KEY env) as Lk.
  { unfold OPENROUTER_API_KEY, getenv, env'.
    now rewrite !lookup_insert_ne by discriminate. }
  assert (COUNCIL_MODELS env' = Ok council) as Ec'.
  { apply COUNCIL_MODELS_of_ids; [exact Lc | | exact Hids].
    destruct (COUNCIL_MODELS_not_empty env) as (c & first & rest & E & ->).
    rewrite E in Ec. now injection Ec as <-. }
  assert (CHAIRMAN_MODEL env' council = Ok chairman) as Hch'.
  { apply CHAIRMAN_MODEL_set; [exact Lch |].
    exact (CHAIRMAN_MODEL_not_empty env council chairman Hids Hch). }
  assert (REASONING_EFFORT env' = REASONING_EFFORT env) as Le'.
  { destruct (REASONING_EFFORT env) as [e|] eqn:E.
    - destruct (REASONING_EFFORT_normal env e E) as (Hne & Hs & Hl).
      now apply REASONING_EFFORT_of_normal.
    - unfold REASONING_EFFORT. now rewrite Le. }
  unfold config_module. rewrite Ec'. simpl. rewrite Hch'. simpl.
  now rewrite Lk, Le'.
Qed.




(** X14. The resolved reasoning effort is absent exactly when
    [REASONING_EFFORT] is set to a non-empty string of whitespace only. *)
Theorem reasoning_effort_absent_iff (env : environment) :
  exists cfg,
    config_module env = Ok cfg /\
    (reasoning_effort cfg = None <->
     exists s, getenv env "REASONING_EFFORT" = Some s /\
               s <> "" /\ all_space s = true).
Proof.
  destruct (config_module_runs env) as (council & chairman & _ & _ & Hcfg).
  eexists. split; [exact Hcfg |]. simpl. unfold REASONING_EFFORT.
  destruct (getenv env "REASONING_EFFORT") as [s|] eqn:E.
  - destruct (truthy s) eqn:Hs.
    + apply truthy_str_true in Hs.
      destruct (truthy (lower (strip s))) eqn:Ht.
      * split; [discriminate |]. intros (s' & [= <-] & _ & Hsp).
        apply truthy_str_true in Ht. exfalso. apply Ht.
        now rewrite (strip_all_space _ Hsp).
      * split; [| reflexivity]. intros _. exists s.
        apply truthy_str_false, lower_empty, strip_empty in Ht. now repeat split.
    + apply truthy_str_false in Hs. subst s. simpl.
      split; [discriminate |]. now intros (s' & [= <-] & Hne & _).
  - simpl. split; [discriminate |]. now intros (s' & [=] & _).
Qed.
